(** * pcaputil: writing PCAP capture files

    A shallow embedding of [pcaputil/write.go] (package [pcaputil] of
    gopacket) and the proofs of the properties its specification states.

    The writer emits the classic libpcap v2.4 container, little-endian, with
    nanosecond timestamps: one 24-byte file header, then one 16-byte record
    header plus payload per packet. *)

From Stdlib Require Import ZArith Lia Strings.String Strings.Byte.
From stdpp Require Import base option list.

Open Scope Z_scope.

(** ** Machine integers and bytes *)

(** Go's [byte(v)] on an unsigned integer keeps the low eight bits. *)
Definition byte_of_Z (v : Z) : byte :=
  match Byte.of_N (Z.to_N (v mod 256)) with
  | Some b => b
  | None => x00
  end.

(** [uint32(b)] for a byte [b]. *)
Definition Z_of_byte (b : byte) : Z := Z.of_N (Byte.to_N b).

(** [uint32(x)]: conversion of any integer to 32 bits drops the high bits. *)
Definition uint32 (x : Z) : Z := x mod 2 ^ 32.

Definition is_uint32 (x : Z) : Prop := 0 <= x < 2 ^ 32.

(** Go's [int64], and [int] on a 64-bit platform. *)
Definition is_int64 (x : Z) : Prop := - 2 ^ 63 <= x < 2 ^ 63.

(** ** Slices of a backing array

    [buf[lo:hi]] shares storage with [buf]; a function that stores through
    the slice changes [buf] in place.  [with_slice lo hi f buf] runs [f] on
    the slice and writes the result back.  [None] is a run-time panic
    (slice bounds out of range, or a panic of [f]). *)
Definition with_slice (lo hi : nat) (f : list byte → option (list byte))
    (buf : list byte) : option (list byte) :=
  if ((hi <? lo)%nat || (length buf <? hi)%nat)%bool then None
  else
    s ← f (take (hi - lo) (drop lo buf));
    Some (take lo buf ++ s ++ drop hi buf).

(** ** encoding/binary, little-endian

    [binary.LittleEndian.PutUint32] and [PutUint16]: the early bounds check
    [_ = b[3]] panics on a slice that is too short. *)
Definition PutUint16 (b : list byte) (v : Z) : option (list byte) :=
  if (length b <? 2)%nat then None
  else Some (<[1%nat := byte_of_Z (Z.shiftr v 8)]>
            (<[0%nat := byte_of_Z v]> b)).

Definition PutUint32 (b : list byte) (v : Z) : option (list byte) :=
  if (length b <? 4)%nat then None
  else Some (<[3%nat := byte_of_Z (Z.shiftr v 24)]>
            (<[2%nat := byte_of_Z (Z.shiftr v 16)]>
            (<[1%nat := byte_of_Z (Z.shiftr v 8)]>
            (<[0%nat := byte_of_Z v]> b)))).

(** ** io.Writer

    The sink is any implementation of Go's [io.Writer] interface.  [Write]
    returns the new state of the sink, the count [n] and the error.
    [contents] is the sequence of bytes the sink has accepted so far; the
    interface contract ("Write must return a non-nil error if it returns
    n < len(p)") says that a write without error has accepted all of [p]. *)
Definition IoError : Type := string.

Class IoWriter (W : Type) : Type := {
  Write : W → list byte → W * (Z * option IoError);
  contents : W → list byte;
  Write_accepts : ∀ s p s' n,
    Write s p = (s', (n, None)) → contents s' = contents s ++ p
}.

(** [bytes.Buffer]: an in-memory sink whose [Write] appends and never
    fails. *)
Record Buffer : Type := { buffered : list byte }.

#[export] Program Instance Buffer_IoWriter : IoWriter Buffer := {|
  Write b p := ({| buffered := buffered b ++ p |},
                (Z.of_nat (length p), None));
  contents := buffered
|}.
Next Obligation. intros s p s' n [= <- _]. reflexivity. Qed.

(** The write half of a closed [io.Pipe]: every [Write] fails with
    [io.ErrClosedPipe] and accepts nothing. *)
Inductive ClosedPipe : Type := closed_pipe.

Definition ErrClosedPipe : IoError := "io: read/write on closed pipe"%string.

#[export] Program Instance ClosedPipe_IoWriter : IoWriter ClosedPipe := {|
  Write s _ := (s, (0, Some ErrClosedPipe));
  contents _ := []
|}.
Next Obligation. intros s p s' n [=]. Qed.

(** A sink with room for [room] more bytes (a full disk, a bounded
    buffer): a write that does not fit stores what fits and fails with
    [io.ErrShortWrite]. *)
Record Bounded : Type := { stored : list byte; room : nat }.

Definition ErrShortWrite : IoError := "short write"%string.

Definition Bounded_Write (s : Bounded) (p : list byte)
    : Bounded * (Z * option IoError) :=
  if (length p <=? room s)%nat
  then ({| stored := stored s ++ p; room := room s - length p |},
        (Z.of_nat (length p), None))
  else ({| stored := stored s ++ take (room s) p; room := 0 |},
        (Z.of_nat (room s), Some ErrShortWrite)).

#[export] Program Instance Bounded_IoWriter : IoWriter Bounded := {|
  Write := Bounded_Write;
  contents := stored
|}.
Next Obligation.
  intros s p s' n. unfold Bounded_Write.
  destruct (length p <=? room s)%nat; intros [=]; subst; reflexivity.
Qed.

(** ** The writer *)

(** [type Writer struct { w io.Writer }] *)
Record Writer (W : Type) : Type := NewWriter { w : W }.
Arguments NewWriter {W} _.
Arguments w {W} _.

Definition magicNanoseconds : Z := 0xA1B23C4D.
Definition versionMajor : Z := 2.
Definition versionMinor : Z := 4.
Definition nanosPerSecond : Z := 1000000000.

(** Modelled from the spec: [gopacket.CaptureInfo], [time.Time] and
    [layers.LinkType] are declared in other packages.  A timestamp is kept
    as the [int64] count of nanoseconds since the epoch that
    [Timestamp.UnixNano()] returns; [CaptureLength] and [Length] are Go
    [int]s; a link type is an integer code, converted with [uint32(...)]
    where the writer does so.  Only the fields the writer reads appear. *)
Record Time : Type := { UnixNano : Z }.

Record CaptureInfo : Type := {
  Timestamp : Time;
  CaptureLength : Z;
  Length : Z
}.

(** Errors returned by the writer.  The two [fmt.Errorf] validation errors
    carry the values their format strings print; an error of the sink is
    either returned as it is ([ErrSink]) or wrapped with the text
    "error writing packet header" ([ErrWritingPacketHeader]). *)
Inductive error : Type :=
  | ErrCaptureLengthMismatch (capture_length data_length : Z)
  | ErrInvalidCaptureInfo (ci : CaptureInfo)
  | ErrWritingPacketHeader (err : IoError)
  | ErrSink (err : IoError).

Definition is_validation (e : error) : bool :=
  match e with
  | ErrCaptureLengthMismatch _ _ | ErrInvalidCaptureInfo _ => true
  | ErrWritingPacketHeader _ | ErrSink _ => false
  end.

(** The 24 bytes [WriteFileHeader] builds before it writes them. *)
Definition fileHeaderBuf (snaplen linktype : Z) : option (list byte) :=
  let buf := replicate 24 x00 in
  buf ← with_slice 0 4 (λ b, PutUint32 b magicNanoseconds) buf;
  buf ← with_slice 4 6 (λ b, PutUint16 b versionMajor) buf;
  buf ← with_slice 6 8 (λ b, PutUint16 b versionMinor) buf;
  (* bytes 8:12 stay 0 (timezone = UTC), bytes 12:16 stay 0 (sigfigs) *)
  buf ← with_slice 16 20 (λ b, PutUint32 b snaplen) buf;
  with_slice 20 24 (λ b, PutUint32 b (uint32 linktype)) buf.

(** The 16 bytes [writePacketHeader] builds.  [/] and [%] on [int64]
    truncate toward zero. *)
Definition packetHeaderBuf (ci : CaptureInfo) : option (list byte) :=
  let buf := replicate 16 x00 in
  let nanos := UnixNano (Timestamp ci) in
  let secs := uint32 (Z.quot nanos nanosPerSecond) in
  let nsecs := uint32 (Z.rem nanos nanosPerSecond) in
  buf ← with_slice 0 4 (λ b, PutUint32 b secs) buf;
  buf ← with_slice 4 8 (λ b, PutUint32 b nsecs) buf;
  buf ← with_slice 8 12 (λ b, PutUint32 b (uint32 (CaptureLength ci))) buf;
  with_slice 12 16 (λ b, PutUint32 b (uint32 (Length ci))) buf.

Section Writer.
Context {W : Type} `{IoWriter W}.

Definition WriteFileHeader (wr : Writer W) (snaplen linktype : Z)
    : option (Writer W * option error) :=
  buf ← fileHeaderBuf snaplen linktype;
  let '(s, (_, err)) := Write (w wr) buf in
  Some (NewWriter s, ErrSink <$> err).

Definition writePacketHeader (wr : Writer W) (ci : CaptureInfo)
    : option (Writer W * option IoError) :=
  buf ← packetHeaderBuf ci;
  let '(s, (_, err)) := Write (w wr) buf in
  Some (NewWriter s, err).

Definition WritePacket (wr : Writer W) (ci : CaptureInfo) (data : list byte)
    : option (Writer W * option error) :=
  if negb (CaptureLength ci =? Z.of_nat (length data)) then
    Some (wr, Some (ErrCaptureLengthMismatch (CaptureLength ci)
                      (Z.of_nat (length data))))
  else if CaptureLength ci >? Length ci then
    Some (wr, Some (ErrInvalidCaptureInfo ci))
  else
    '(wr1, err) ← writePacketHeader wr ci;
    match err with
    | Some e => Some (wr1, Some (ErrWritingPacketHeader e))
    | None =>
        let '(s, (_, err)) := Write (w wr1) data in
        Some (NewWriter s, ErrSink <$> err)
    end.

(** A run of calls to [WritePacket] on one writer, each of which returned
    a nil error, as in the sequence of calls documented at [NewWriter]. *)
Inductive packets_written : Writer W → list (CaptureInfo * list byte) →
    Writer W → Prop :=
  | packets_written_nil wr : packets_written wr [] wr
  | packets_written_cons wr wr1 wr2 ci data rest :
      WritePacket wr ci data = Some (wr1, None) →
      packets_written wr1 rest wr2 →
      packets_written wr ((ci, data) :: rest) wr2.

End Writer.

(** ** The file format, as a reader sees it

    The layout of the libpcap file format, stated by arithmetic on the
    field values and by the decoding functions of [encoding/binary]; none
    of this is taken from the writer. *)

(** The [n] low-order bytes of [v], least significant first. *)
Definition le_bytes (n : nat) (v : Z) : list byte :=
  map (λ k : nat, byte_of_Z (v / 2 ^ (8 * Z.of_nat k))) (seq 0 n).

(** [binary.LittleEndian.Uint16] and [Uint32]; shifts of a [uint16] or
    [uint32] drop the bits that leave the word.  [None] is the panic on a
    short slice. *)
Definition Uint16 (b : list byte) : option Z :=
  match b with
  | b0 :: b1 :: _ =>
      Some (Z.lor (Z_of_byte b0) (Z.shiftl (Z_of_byte b1) 8 mod 2 ^ 16))
  | _ => None
  end.

Definition Uint32 (b : list byte) : option Z :=
  match b with
  | b0 :: b1 :: b2 :: b3 :: _ =>
      Some (Z.lor (Z.lor (Z.lor (Z_of_byte b0)
                                (uint32 (Z.shiftl (Z_of_byte b1) 8)))
                         (uint32 (Z.shiftl (Z_of_byte b2) 16)))
                  (uint32 (Z.shiftl (Z_of_byte b3) 24)))
  | _ => None
  end.

Record FileHeader : Type := {
  Magic : Z;
  VersionMajor : Z;
  VersionMinor : Z;
  ThisZone : Z;
  SigFigs : Z;
  SnapLen : Z;
  LinkType : Z
}.

(** A little-endian reader of the 24-byte global header: it refuses input
    of another length and input that does not start with the magic number
    of the nanosecond variant. *)
Definition ReadFileHeader (b : list byte) : option FileHeader :=
  if negb (length b =? 24)%nat then None
  else
    magic ← Uint32 b;
    major ← Uint16 (drop 4 b);
    minor ← Uint16 (drop 6 b);
    zone ← Uint32 (drop 8 b);
    sigfigs ← Uint32 (drop 12 b);
    snaplen ← Uint32 (drop 16 b);
    linktype ← Uint32 (drop 20 b);
    if negb (magic =? 0xA1B23C4D) then None
    else Some {| Magic := magic; VersionMajor := major;
                 VersionMinor := minor; ThisZone := zone;
                 SigFigs := sigfigs; SnapLen := snaplen;
                 LinkType := linktype |}.

Record RecordHeader : Type := {
  TsSec : Z;
  TsNsec : Z;
  InclLen : Z;
  OrigLen : Z
}.

(** A little-endian reader of the 16-byte record header. *)
Definition ReadRecordHeader (b : list byte) : option RecordHeader :=
  if negb (length b =? 16)%nat then None
  else
    sec ← Uint32 b;
    nsec ← Uint32 (drop 4 b);
    incl ← Uint32 (drop 8 b);
    orig ← Uint32 (drop 12 b);
    Some {| TsSec := sec; TsNsec := nsec; InclLen := incl; OrigLen := orig |}.

(** The global header of a file with the given snapshot length and link
    type: magic(4), version-major(2) = 2, version-minor(2) = 4,
    thiszone(4) = 0, sigfigs(4) = 0, snaplen(4), linktype(4). *)
Definition file_header_bytes (snaplen linktype : Z) : list byte :=
  le_bytes 4 0xA1B23C4D ++ le_bytes 2 2 ++ le_bytes 2 4 ++
  le_bytes 4 0 ++ le_bytes 4 0 ++ le_bytes 4 snaplen ++ le_bytes 4 linktype.

(** Its first sixteen bytes, which do not depend on the caller. *)
Definition fileHeaderFixed : list byte :=
  [x4d; x3c; xb2; xa1; x02; x00; x04; x00;
   x00; x00; x00; x00; x00; x00; x00; x00].

(** A record header: ts-seconds(4), ts-nanoseconds(4), captured-length(4),
    original-length(4). *)
Definition record_header_bytes (sec nsec incl orig : Z) : list byte :=
  le_bytes 4 sec ++ le_bytes 4 nsec ++ le_bytes 4 incl ++ le_bytes 4 orig.

(** The header fields the writer stores for [ci], before narrowing. *)
Definition packetHeaderFields (ci : CaptureInfo) : list byte :=
  record_header_bytes
    (Z.quot (UnixNano (Timestamp ci)) nanosPerSecond)
    (Z.rem (UnixNano (Timestamp ci)) nanosPerSecond)
    (CaptureLength ci) (Length ci).

(** One record as it lies in the file. *)
Definition record_bytes (p : CaptureInfo * list byte) : list byte :=
  packetHeaderFields p.1 ++ p.2.

(** Sum of [16 + CaptureLength] over the packets. *)
Definition records_size (pkts : list (CaptureInfo * list byte)) : Z :=
  foldr (λ p acc, 16 + CaptureLength p.1 + acc) 0 pkts.

(** The calls a valid packet causes on the sink: the record header, then,
    unless the sink refused the header, the payload. *)
Definition write_record {W : Type} `{IoWriter W} (wr : Writer W)
    (ci : CaptureInfo) (data : list byte) : Writer W * option error :=
  match Write (w wr) (packetHeaderFields ci) with
  | (s1, (_, Some e)) => (NewWriter s1, Some (ErrWritingPacketHeader e))
  | (s1, (_, None)) =>
      (NewWriter (Write s1 data).1, ErrSink <$> (Write s1 data).2.2)
  end.

(** A reader of the records that follow the global header: each record
    header announces how many payload bytes follow it.  One unit of [fuel]
    is spent per record; [None] is a truncated file (or no fuel left). *)
Fixpoint ReadRecords (fuel : nat) (b : list byte)
    : option (list (RecordHeader * list byte)) :=
  if (length b =? 0)%nat then Some []
  else
    match fuel with
    | O => None
    | S fuel' =>
        rh ← ReadRecordHeader (take 16 b);
        let rest := drop 16 b in
        let n := Z.to_nat (InclLen rh) in
        if (length rest <? n)%nat then None
        else
          recs ← ReadRecords fuel' (drop n rest);
          Some ((rh, take n rest) :: recs)
    end.

(** A reader of a whole capture file.  A record takes at least sixteen
    bytes, so the length of the file is fuel enough. *)
Definition ReadFile (b : list byte)
    : option (FileHeader * list (RecordHeader * list byte)) :=
  fh ← ReadFileHeader (take 24 b);
  recs ← ReadRecords (length b) (drop 24 b);
  Some (fh, recs).

(** What a reader is expected to get back for a packet: the timestamp split
    into seconds and nanoseconds, the two lengths, and the payload. *)
Definition read_back (p : CaptureInfo * list byte)
    : RecordHeader * list byte :=
  ({| TsSec := UnixNano (Timestamp p.1) / 1000000000;
      TsNsec := UnixNano (Timestamp p.1) mod 1000000000;
      InclLen := CaptureLength p.1;
      OrigLen := Length p.1 |}, p.2).

(** A packet whose timestamp and original length fit the four-byte fields
    of the record header. *)
Definition fits_record (p : CaptureInfo * list byte) : Prop :=
  0 <= UnixNano (Timestamp p.1) < 2 ^ 32 * 1000000000 ∧
  Length p.1 < 2 ^ 32.

(** ** Bytes and words *)

Lemma Z_of_byte_of_Z (v : Z) : Z_of_byte (byte_of_Z v) = v mod 256.
Proof.
  unfold Z_of_byte, byte_of_Z.
  assert (Hr : 0 <= v mod 256 < 256) by (apply Z.mod_pos_bound; lia).
  destruct (Byte.of_N (Z.to_N (v mod 256))) as [b|] eqn:Hb.
  - apply Byte.to_of_N in Hb. rewrite Hb. lia.
  - apply Byte.of_N_None_iff in Hb. lia.
Qed.

Lemma byte_of_Z_mod (v : Z) : byte_of_Z (v mod 256) = byte_of_Z v.
Proof.
  unfold byte_of_Z. rewrite Z.mod_mod by lia. reflexivity.
Qed.

Lemma byte_of_Z_shiftr (v : Z) (k : nat) :
  byte_of_Z (Z.shiftr v (8 * Z.of_nat k)) =
  byte_of_Z (v / 2 ^ (8 * Z.of_nat k)).
Proof. rewrite Z.shiftr_div_pow2 by lia. reflexivity. Qed.

Lemma byte_of_Z_uint32 (v : Z) (k : nat) :
  (k < 4)%nat →
  byte_of_Z (uint32 v / 2 ^ (8 * Z.of_nat k)) =
  byte_of_Z (v / 2 ^ (8 * Z.of_nat k)).
Proof.
  intros Hk. rewrite <- (byte_of_Z_mod (uint32 v / _)).
  rewrite <- (byte_of_Z_mod (v / _)). f_equal. unfold uint32.
  destruct k as [|[|[|[|k]]]]; [| | | | lia]; cbn; Z.div_mod_to_equations; lia.
Qed.

Lemma le_bytes_uint32 (v : Z) : le_bytes 4 (uint32 v) = le_bytes 4 v.
Proof.
  unfold le_bytes. cbn [seq map].
  rewrite !byte_of_Z_uint32 by lia. reflexivity.
Qed.

Lemma length_le_bytes (n : nat) (v : Z) : length (le_bytes n v) = n.
Proof. unfold le_bytes. rewrite length_map, length_seq. reflexivity. Qed.

Lemma PutUint32_le_bytes (b0 b1 b2 b3 : byte) (v : Z) :
  PutUint32 [b0; b1; b2; b3] v = Some (le_bytes 4 v).
Proof.
  unfold PutUint32, le_bytes. cbn [length Nat.ltb Nat.leb seq map].
  change 24 with (8 * Z.of_nat 3). change 16 with (8 * Z.of_nat 2).
  change (Z.shiftr v 8) with (Z.shiftr v (8 * Z.of_nat 1)).
  rewrite !byte_of_Z_shiftr. change (8 * Z.of_nat 0) with 0.
  rewrite Z.pow_0_r, Z.div_1_r. reflexivity.
Qed.

Lemma le_bytes_shiftr (v : Z) :
  le_bytes 4 v =
  [byte_of_Z v; byte_of_Z (Z.shiftr v 8); byte_of_Z (Z.shiftr v 16);
   byte_of_Z (Z.shiftr v 24)].
Proof.
  apply (inj Some).
  rewrite <- (PutUint32_le_bytes x00 x00 x00 x00 v). reflexivity.
Qed.

(** ** The buffers the writer builds *)

Lemma fileHeaderBuf_eq (snaplen linktype : Z) :
  fileHeaderBuf snaplen linktype =
  Some (fileHeaderFixed ++ le_bytes 4 snaplen ++ le_bytes 4 linktype).
Proof.
  rewrite <- (le_bytes_uint32 linktype), !le_bytes_shiftr.
  unfold fileHeaderBuf, PutUint32, PutUint16.
  generalize (byte_of_Z snaplen) (byte_of_Z (Z.shiftr snaplen 8))
    (byte_of_Z (Z.shiftr snaplen 16)) (byte_of_Z (Z.shiftr snaplen 24)).
  generalize (byte_of_Z (uint32 linktype))
    (byte_of_Z (Z.shiftr (uint32 linktype) 8))
    (byte_of_Z (Z.shiftr (uint32 linktype) 16))
    (byte_of_Z (Z.shiftr (uint32 linktype) 24)).
  intros. vm_compute. reflexivity.
Qed.

Lemma packetHeaderBuf_eq (ci : CaptureInfo) :
  packetHeaderBuf ci = Some (packetHeaderFields ci).
Proof.
  unfold packetHeaderFields, record_header_bytes.
  rewrite <- (le_bytes_uint32 (Z.quot _ _)), <- (le_bytes_uint32 (Z.rem _ _)),
    <- (le_bytes_uint32 (CaptureLength ci)), <- (le_bytes_uint32 (Length ci)).
  rewrite !le_bytes_shiftr.
  unfold packetHeaderBuf, PutUint32.
  generalize (uint32 (Z.quot (UnixNano (Timestamp ci)) nanosPerSecond))
    (uint32 (Z.rem (UnixNano (Timestamp ci)) nanosPerSecond))
    (uint32 (CaptureLength ci)) (uint32 (Length ci)).
  intros s n c l.
  generalize (byte_of_Z s) (byte_of_Z (Z.shiftr s 8))
    (byte_of_Z (Z.shiftr s 16)) (byte_of_Z (Z.shiftr s 24)).
  generalize (byte_of_Z n) (byte_of_Z (Z.shiftr n 8))
    (byte_of_Z (Z.shiftr n 16)) (byte_of_Z (Z.shiftr n 24)).
  generalize (byte_of_Z c) (byte_of_Z (Z.shiftr c 8))
    (byte_of_Z (Z.shiftr c 16)) (byte_of_Z (Z.shiftr c 24)).
  generalize (byte_of_Z l) (byte_of_Z (Z.shiftr l 8))
    (byte_of_Z (Z.shiftr l 16)) (byte_of_Z (Z.shiftr l 24)).
  intros. vm_compute. reflexivity.
Qed.

Lemma file_header_bytes_eq (snaplen linktype : Z) :
  file_header_bytes snaplen linktype =
  fileHeaderFixed ++ le_bytes 4 snaplen ++ le_bytes 4 linktype.
Proof. reflexivity. Qed.

Lemma length_file_header_bytes (snaplen linktype : Z) :
  length (file_header_bytes snaplen linktype) = 24%nat.
Proof.
  unfold file_header_bytes. rewrite !length_app, !length_le_bytes.
  reflexivity.
Qed.

Lemma length_packetHeaderFields (ci : CaptureInfo) :
  length (packetHeaderFields ci) = 16%nat.
Proof.
  unfold packetHeaderFields, record_header_bytes.
  rewrite !length_app, !length_le_bytes.
  reflexivity.
Qed.

(** ** Decoding what was encoded *)

Lemma testbit_mod_pow2_ltb (a n i : Z) :
  0 <= n → Z.testbit (a mod 2 ^ n) i = (i <? n) && Z.testbit a i.
Proof.
  intros Hn. destruct (Z.ltb_spec i n).
  - rewrite Z.mod_pow2_bits_low by lia. reflexivity.
  - rewrite Z.mod_pow2_bits_high by lia. reflexivity.
Qed.

(** Bit [i] of the byte of [v] at bit offset [k], put back in place in a
    word of [wd] bits. *)
Lemma testbit_field (v k wd i : Z) :
  0 <= k → 0 <= wd → 0 <= i →
  Z.testbit (Z.shiftl ((v / 2 ^ k) mod 2 ^ 8) k mod 2 ^ wd) i =
  (k <=? i) && (i <? k + 8) && (i <? wd) && Z.testbit v i.
Proof.
  intros Hk Hw Hi.
  rewrite testbit_mod_pow2_ltb, Z.shiftl_spec by lia.
  destruct (Z.leb_spec k i).
  - rewrite testbit_mod_pow2_ltb, Z.div_pow2_bits by lia.
    replace (i - k + k) with i by lia.
    destruct (Z.ltb_spec (i - k) 8), (Z.ltb_spec i (k + 8)); try lia;
      destruct (i <? wd); reflexivity.
  - rewrite Z.testbit_neg_r by lia. rewrite andb_false_r. reflexivity.
Qed.

Lemma lor_fields_uint32 (v : Z) :
  Z.lor (Z.lor (Z.lor ((v / 2 ^ 0) mod 2 ^ 8)
                      (Z.shiftl ((v / 2 ^ 8) mod 2 ^ 8) 8 mod 2 ^ 32))
               (Z.shiftl ((v / 2 ^ 16) mod 2 ^ 8) 16 mod 2 ^ 32))
        (Z.shiftl ((v / 2 ^ 24) mod 2 ^ 8) 24 mod 2 ^ 32) = v mod 2 ^ 32.
Proof.
  rewrite <- (Z.mod_small ((v / 2 ^ 0) mod 2 ^ 8) (2 ^ 32))
    by (pose proof (Z.mod_pos_bound (v / 2 ^ 0) (2 ^ 8)); lia).
  rewrite <- (Z.shiftl_0_r ((v / 2 ^ 0) mod 2 ^ 8)).
  apply Z.bits_inj'. intros i Hi.
  rewrite !Z.lor_spec, !testbit_field, testbit_mod_pow2_ltb by lia.
  destruct (Z.testbit v i); rewrite ?andb_false_r, ?andb_true_r;
    [|reflexivity].
  destruct (Z.leb_spec 0 i), (Z.leb_spec 8 i), (Z.leb_spec 16 i),
    (Z.leb_spec 24 i), (Z.ltb_spec i (0 + 8)), (Z.ltb_spec i (8 + 8)),
    (Z.ltb_spec i (16 + 8)), (Z.ltb_spec i (24 + 8)), (Z.ltb_spec i 32);
    try lia; reflexivity.
Qed.

Lemma Uint32_le_bytes (v : Z) (rest : list byte) :
  Uint32 (le_bytes 4 v ++ rest) = Some (uint32 v).
Proof.
  unfold le_bytes, Uint32, uint32. cbn [seq map app]. f_equal.
  rewrite !Z_of_byte_of_Z. apply lor_fields_uint32.
Qed.

Lemma Uint32_le_bytes_nil (v : Z) : Uint32 (le_bytes 4 v) = Some (uint32 v).
Proof. rewrite <- (app_nil_r (le_bytes 4 v)). apply Uint32_le_bytes. Qed.

Lemma drop_le_bytes_app (n : nat) (v : Z) (rest : list byte) :
  drop n (le_bytes n v ++ rest) = rest.
Proof.
  rewrite drop_app_length'; [reflexivity | symmetry; apply length_le_bytes].
Qed.

Lemma ReadFileHeader_fields (snaplen linktype : Z) :
  ReadFileHeader (fileHeaderFixed ++ le_bytes 4 snaplen ++ le_bytes 4 linktype)
  = Some {| Magic := 0xA1B23C4D; VersionMajor := 2; VersionMinor := 4;
            ThisZone := 0; SigFigs := 0;
            SnapLen := uint32 snaplen; LinkType := uint32 linktype |}.
Proof.
  unfold ReadFileHeader.
  rewrite !length_app, !length_le_bytes.
  change (drop 20 (fileHeaderFixed ++ ?l)) with (drop 4 l).
  change (drop 16 (fileHeaderFixed ++ ?l)) with l.
  rewrite drop_le_bytes_app, Uint32_le_bytes, Uint32_le_bytes_nil.
  generalize (uint32 snaplen) (uint32 linktype)
    (le_bytes 4 snaplen ++ le_bytes 4 linktype).
  intros s l rest. vm_compute. reflexivity.
Qed.

(** ** The writer's calls on the sink *)

Section WriterFacts.
Context {W : Type} `{IoWriter W}.

(** [WriteFileHeader] is one [Write] of the 24 header bytes; its result is
    the sink's. *)
Lemma WriteFileHeader_eq (wr : Writer W) (snaplen linktype : Z) :
  WriteFileHeader wr snaplen linktype =
  Some (NewWriter (Write (w wr) (file_header_bytes snaplen linktype)).1,
        ErrSink <$> (Write (w wr) (file_header_bytes snaplen linktype)).2.2).
Proof.
  unfold WriteFileHeader.
  rewrite fileHeaderBuf_eq, <- file_header_bytes_eq. cbn [mbind option_bind].
  destruct (Write (w wr) (file_header_bytes snaplen linktype))
    as [s [n err]].
  reflexivity.
Qed.

Lemma writePacketHeader_eq (wr : Writer W) (ci : CaptureInfo) :
  writePacketHeader wr ci =
  Some (NewWriter (Write (w wr) (packetHeaderFields ci)).1,
        (Write (w wr) (packetHeaderFields ci)).2.2).
Proof.
  unfold writePacketHeader.
  rewrite packetHeaderBuf_eq. cbn [mbind option_bind].
  destruct (Write (w wr) (packetHeaderFields ci)) as [s [n err]].
  reflexivity.
Qed.

Lemma WritePacket_valid (wr : Writer W) (ci : CaptureInfo)
    (data : list byte) :
  CaptureLength ci = Z.of_nat (length data) →
  CaptureLength ci <= Length ci →
  WritePacket wr ci data = Some (write_record wr ci data).
Proof.
  intros Hlen Hle. unfold WritePacket, write_record.
  rewrite (proj2 (Z.eqb_eq _ _) Hlen). cbn [negb].
  destruct (Z.gtb_spec (CaptureLength ci) (Length ci)) as [Hgt|_]; [lia|].
  rewrite writePacketHeader_eq. cbn [mbind option_bind].
  destruct (Write (w wr) (packetHeaderFields ci)) as [s1 [n1 [e|]]];
    cbn [fst snd w]; [reflexivity|].
  destruct (Write s1 data) as [s2 [n2 err]]. reflexivity.
Qed.

Lemma WritePacket_mismatch (wr : Writer W) (ci : CaptureInfo)
    (data : list byte) :
  CaptureLength ci ≠ Z.of_nat (length data) →
  WritePacket wr ci data =
  Some (wr, Some (ErrCaptureLengthMismatch (CaptureLength ci)
                    (Z.of_nat (length data)))).
Proof.
  intros Hne. unfold WritePacket.
  rewrite (proj2 (Z.eqb_neq _ _) Hne). reflexivity.
Qed.

Lemma WritePacket_nil_inv (wr wr' : Writer W) (ci : CaptureInfo)
    (data : list byte) :
  WritePacket wr ci data = Some (wr', None) →
  CaptureLength ci = Z.of_nat (length data) ∧
  CaptureLength ci <= Length ci ∧
  contents (w wr') = contents (w wr) ++ packetHeaderFields ci ++ data.
Proof.
  intros Hw.
  destruct (Z.eq_dec (CaptureLength ci) (Z.of_nat (length data)))
    as [Hlen|Hne]; [|rewrite WritePacket_mismatch in Hw by done; done].
  destruct (Z.le_gt_cases (CaptureLength ci) (Length ci)) as [Hle|Hgt].
  - split; [done|]. split; [done|].
    rewrite WritePacket_valid in Hw by done. unfold write_record in Hw.
    destruct (Write (w wr) (packetHeaderFields ci))
      as [s1 [n1 [e|]]] eqn:E1; [done|].
    destruct (Write s1 data) as [s2 [n2 [e|]]] eqn:E2; [done|].
    cbn in Hw. injection Hw as <-. cbn [w].
    rewrite (Write_accepts _ _ _ _ E2), (Write_accepts _ _ _ _ E1).
    rewrite <- app_assoc. reflexivity.
  - unfold WritePacket in Hw.
    rewrite (proj2 (Z.eqb_eq _ _) Hlen) in Hw. cbn [negb] in Hw.
    destruct (Z.gtb_spec (CaptureLength ci) (Length ci)); [done|lia].
Qed.

End WriterFacts.

(** ** Sinks that fail

    The writer on sinks that refuse a write, by evaluation. *)

Example WritePacket_on_closed_pipe :
  WritePacket (NewWriter closed_pipe)
    {| Timestamp := {| UnixNano := 0 |}; CaptureLength := 2; Length := 2 |}
    [xca; xfe] =
  Some (NewWriter closed_pipe, Some (ErrWritingPacketHeader ErrClosedPipe)).
Proof. vm_compute. reflexivity. Qed.

Example WritePacket_short_payload :
  WritePacket (NewWriter {| stored := []; room := 17 |})
    {| Timestamp := {| UnixNano := 0 |}; CaptureLength := 2; Length := 2 |}
    [xca; xfe] =
  Some (NewWriter {| stored := [x00; x00; x00; x00; x00; x00; x00; x00;
                                x02; x00; x00; x00; x02; x00; x00; x00;
                                xca];
                     room := 0 |},
        Some (ErrSink ErrShortWrite)).
Proof. vm_compute. reflexivity. Qed.

Example WriteFileHeader_on_full_disk :
  WriteFileHeader (NewWriter {| stored := []; room := 0 |}) 65536 1 =
  Some (NewWriter {| stored := []; room := 0 |}, Some (ErrSink ErrShortWrite)).
Proof. vm_compute. reflexivity. Qed.

(** ** The file header *)

(** C1.  For every snapshot length and link type, [WriteFileHeader] hands
    the sink, in one [Write], exactly 24 bytes: the magic number
    0xA1B23C4D, version major 2 and minor 4 on two bytes each, four zero
    bytes of time zone, four zero bytes of accuracy, then the snapshot
    length and the link type on four bytes each, every field least
    significant byte first.  On an in-memory buffer these bytes are
    appended, and for snapshot length 65536 and link type 1 they are
    4D 3C B2 A1 02 00 04 00 00 00 00 00 00 00 00 00 00 00 01 00
    01 00 00 00. *)
Theorem WriteFileHeader_emits_24_bytes :
  (∀ (W : Type) (IW : IoWriter W) (wr : Writer W) (snaplen linktype : Z),
     length (file_header_bytes snaplen linktype) = 24%nat ∧
     WriteFileHeader wr snaplen linktype =
       Some (NewWriter (Write (w wr) (file_header_bytes snaplen linktype)).1,
             ErrSink <$>
               (Write (w wr) (file_header_bytes snaplen linktype)).2.2)) ∧
  (∀ (b : list byte) (snaplen linktype : Z),
     WriteFileHeader (NewWriter {| buffered := b |}) snaplen linktype =
       Some (NewWriter
               {| buffered := b ++ file_header_bytes snaplen linktype |},
             None)) ∧
  WriteFileHeader (NewWriter {| buffered := [] |}) 65536 1 =
    Some (NewWriter {| buffered :=
            [x4d; x3c; xb2; xa1; x02; x00; x04; x00;
             x00; x00; x00; x00; x00; x00; x00; x00;
             x00; x00; x01; x00; x01; x00; x00; x00] |}, None).
Proof.
  split; [|split].
  - intros W IW wr snaplen linktype.
    split; [apply length_file_header_bytes | apply WriteFileHeader_eq].
  - intros b snaplen linktype. rewrite WriteFileHeader_eq. reflexivity.
  - vm_compute. reflexivity.
Qed.

(** C7.  [WriteFileHeader] validates nothing: for every 32-bit snapshot
    length and link type the header is built, both values are stored as
    they are (a little-endian reader of bytes 16..20 and 20..24 gets them
    back), and the call returns an error exactly when the sink's [Write]
    of the header does, namely that error of the sink, which is not a
    validation error. *)
Theorem WriteFileHeader_fails_only_with_sink
    (W : Type) (IW : IoWriter W) (wr : Writer W) (snaplen linktype : Z) :
  is_uint32 snaplen → is_uint32 linktype →
  ∃ (hdr : list byte) (wr' : Writer W) (res : option error),
    fileHeaderBuf snaplen linktype = Some hdr ∧
    Uint32 (drop 16 hdr) = Some snaplen ∧
    Uint32 (drop 20 hdr) = Some linktype ∧
    WriteFileHeader wr snaplen linktype = Some (wr', res) ∧
    w wr' = (Write (w wr) hdr).1 ∧
    res = ErrSink <$> (Write (w wr) hdr).2.2 ∧
    (res = None ↔ (Write (w wr) hdr).2.2 = None) ∧
    (∀ e, res = Some e → is_validation e = false).
Proof.
  intros Hs Hl.
  exists (file_header_bytes snaplen linktype).
  eexists. eexists.
  split; [rewrite fileHeaderBuf_eq; reflexivity|].
  split.
  { change (drop 16 (file_header_bytes snaplen linktype))
      with (le_bytes 4 snaplen ++ le_bytes 4 linktype).
    rewrite Uint32_le_bytes. unfold uint32, is_uint32 in *.
    rewrite Z.mod_small by lia. reflexivity. }
  split.
  { change (drop 20 (file_header_bytes snaplen linktype))
      with (drop 4 (le_bytes 4 snaplen ++ le_bytes 4 linktype)).
    rewrite drop_le_bytes_app, Uint32_le_bytes_nil.
    unfold uint32, is_uint32 in *.
    rewrite Z.mod_small by lia. reflexivity. }
  split; [apply WriteFileHeader_eq|].
  split; [reflexivity|]. split; [reflexivity|].
  destruct (Write (w wr) (file_header_bytes snaplen linktype)).2.2;
    cbn; split; try split; try done.
  intros e' [= <-]. reflexivity.
Qed.

(** A closed pipe refuses the header: the call fails with the pipe's own
    error. *)
Lemma WriteFileHeader_fails_only_with_sink_closed_pipe :
  is_uint32 65536 ∧ is_uint32 1 ∧
  WriteFileHeader (NewWriter closed_pipe) 65536 1 =
    Some (NewWriter closed_pipe, Some (ErrSink ErrClosedPipe)).
Proof.
  assert (H1 : is_uint32 65536) by (unfold is_uint32; lia).
  assert (H2 : is_uint32 1) by (unfold is_uint32; lia).
  split; [exact H1|]. split; [exact H2|].
  destruct (WriteFileHeader_fails_only_with_sink ClosedPipe _
              (NewWriter closed_pipe) 65536 1 H1 H2)
    as (hdr & wr' & res & _ & _ & _ & E & Hw & Hres & _).
  rewrite E. destruct wr' as [s]. cbn in Hw, Hres. subst. reflexivity.
Defined.

(** C8.  Round trip of the file header: for every 32-bit snapshot length
    and link type, the 24 bytes [WriteFileHeader] writes to an empty buffer
    are read back by a little-endian reader of the global header as magic
    0xA1B23C4D, version 2.4, time zone 0, accuracy 0 and the same snapshot
    length and link type. *)
Theorem ReadFileHeader_WriteFileHeader (snaplen linktype : Z) :
  is_uint32 snaplen → is_uint32 linktype →
  ∃ hdr : list byte,
    WriteFileHeader (NewWriter {| buffered := [] |}) snaplen linktype =
      Some (NewWriter {| buffered := hdr |}, None) ∧
    length hdr = 24%nat ∧
    ReadFileHeader hdr =
      Some {| Magic := 0xA1B23C4D; VersionMajor := 2; VersionMinor := 4;
              ThisZone := 0; SigFigs := 0;
              SnapLen := snaplen; LinkType := linktype |}.
Proof.
  intros Hs Hl. exists (file_header_bytes snaplen linktype).
  split; [rewrite WriteFileHeader_eq; reflexivity|].
  split; [apply length_file_header_bytes|].
  rewrite file_header_bytes_eq, ReadFileHeader_fields.
  unfold uint32, is_uint32 in *. rewrite !Z.mod_small by lia. reflexivity.
Qed.

Lemma ReadFileHeader_WriteFileHeader_ethernet :
  is_uint32 65536 ∧ is_uint32 1 ∧
  ∃ hdr : list byte,
    WriteFileHeader (NewWriter {| buffered := [] |}) 65536 1 =
      Some (NewWriter {| buffered := hdr |}, None) ∧
    length hdr = 24%nat ∧
    ReadFileHeader hdr =
      Some {| Magic := 0xA1B23C4D; VersionMajor := 2; VersionMinor := 4;
              ThisZone := 0; SigFigs := 0; SnapLen := 65536; LinkType := 1 |}.
Proof.
  assert (H1 : is_uint32 65536) by (unfold is_uint32; lia).
  assert (H2 : is_uint32 1) by (unfold is_uint32; lia).
  split; [exact H1|]. split; [exact H2|].
  exact (ReadFileHeader_WriteFileHeader 65536 1 H1 H2).
Defined.

(** ** Packet records *)

(** C3.  When the declared captured length differs from the length of the
    payload, [WritePacket] returns the validation error that carries both
    lengths and leaves the sink as it was: no [Write] happens. *)
Theorem WritePacket_rejects_length_mismatch
    (W : Type) (IW : IoWriter W) (wr : Writer W) (ci : CaptureInfo)
    (data : list byte) :
  CaptureLength ci ≠ Z.of_nat (length data) →
  ∃ (wr' : Writer W) (e : error),
    WritePacket wr ci data = Some (wr', Some e) ∧
    e = ErrCaptureLengthMismatch (CaptureLength ci)
          (Z.of_nat (length data)) ∧
    is_validation e = true ∧
    wr' = wr ∧ contents (w wr') = contents (w wr).
Proof.
  intros Hne. exists wr. eexists.
  split; [apply WritePacket_mismatch; assumption|].
  repeat split.
Qed.

(** Scenario C: ten bytes of payload declared as eight. *)
Lemma WritePacket_rejects_length_mismatch_10_vs_8 :
  let ci := {| Timestamp := {| UnixNano := 0 |};
               CaptureLength := 8; Length := 10 |} in
  let data := replicate 10 xff in
  let wr := NewWriter {| buffered := [x01; x02] |} in
  CaptureLength ci ≠ Z.of_nat (length data) ∧
  WritePacket wr ci data = Some (wr, Some (ErrCaptureLengthMismatch 8 10)).
Proof.
  intros ci data wr.
  assert (H1 : CaptureLength ci ≠ Z.of_nat (length data)) by (cbn; lia).
  split; [exact H1|].
  destruct (WritePacket_rejects_length_mismatch Buffer _ wr ci data H1)
    as (wr' & e & E & -> & _ & -> & _).
  exact E.
Defined.

(** C4.  When the declared captured length exceeds the declared original
    length, [WritePacket] returns a validation error and leaves the sink
    as it was; if the captured length agrees with the payload, the error
    is the one that carries the capture info. *)
Theorem WritePacket_rejects_capture_above_length
    (W : Type) (IW : IoWriter W) (wr : Writer W) (ci : CaptureInfo)
    (data : list byte) :
  CaptureLength ci > Length ci →
  ∃ (wr' : Writer W) (e : error),
    WritePacket wr ci data = Some (wr', Some e) ∧
    is_validation e = true ∧
    wr' = wr ∧ contents (w wr') = contents (w wr) ∧
    (CaptureLength ci = Z.of_nat (length data) →
     e = ErrInvalidCaptureInfo ci).
Proof.
  intros Hgt. exists wr.
  destruct (Z.eq_dec (CaptureLength ci) (Z.of_nat (length data)))
    as [Hlen|Hne].
  - exists (ErrInvalidCaptureInfo ci). repeat split.
    unfold WritePacket. rewrite (proj2 (Z.eqb_eq _ _) Hlen). cbn [negb].
    destruct (Z.gtb_spec (CaptureLength ci) (Length ci)); [reflexivity|lia].
  - eexists. split; [apply WritePacket_mismatch; assumption|].
    repeat split. intros Hlen. contradiction.
Qed.

(** Scenario D: captured length 20, original length 10. *)
Lemma WritePacket_rejects_capture_above_length_20_vs_10 :
  let ci := {| Timestamp := {| UnixNano := 0 |};
               CaptureLength := 20; Length := 10 |} in
  let data := replicate 20 xff in
  let wr := NewWriter {| buffered := [] |} in
  CaptureLength ci > Length ci ∧
  WritePacket wr ci data = Some (wr, Some (ErrInvalidCaptureInfo ci)).
Proof.
  intros ci data wr.
  assert (H1 : CaptureLength ci > Length ci) by (cbn; lia).
  split; [exact H1|].
  destruct (WritePacket_rejects_capture_above_length Buffer _ wr ci data H1)
    as (wr' & e & E & _ & -> & _ & He).
  rewrite (He eq_refl) in E. exact E.
Defined.

(** C9.  The length-mismatch check comes first: when the captured length
    both differs from the payload length and exceeds the original length,
    the error returned is the one for the mismatch of lengths. *)
Theorem WritePacket_reports_mismatch_first
    (W : Type) (IW : IoWriter W) (wr : Writer W) (ci : CaptureInfo)
    (data : list byte) :
  CaptureLength ci ≠ Z.of_nat (length data) →
  CaptureLength ci > Length ci →
  WritePacket wr ci data =
    Some (wr, Some (ErrCaptureLengthMismatch (CaptureLength ci)
                      (Z.of_nat (length data)))) ∧
  WritePacket wr ci data ≠ Some (wr, Some (ErrInvalidCaptureInfo ci)).
Proof.
  intros Hne _. rewrite WritePacket_mismatch by assumption.
  split; [reflexivity|]. intros [=].
Qed.

Lemma WritePacket_reports_mismatch_first_8_10_4 :
  let ci := {| Timestamp := {| UnixNano := 0 |};
               CaptureLength := 8; Length := 4 |} in
  let data := replicate 10 xff in
  let wr := NewWriter {| buffered := [] |} in
  CaptureLength ci ≠ Z.of_nat (length data) ∧
  CaptureLength ci > Length ci ∧
  WritePacket wr ci data = Some (wr, Some (ErrCaptureLengthMismatch 8 10)).
Proof.
  intros ci data wr.
  assert (H1 : CaptureLength ci ≠ Z.of_nat (length data)) by (cbn; lia).
  assert (H2 : CaptureLength ci > Length ci) by (cbn; lia).
  split; [exact H1|]. split; [exact H2|].
  exact (proj1 (WritePacket_reports_mismatch_first Buffer _ wr ci data
                  H1 H2)).
Defined.

(** ** Reading a record header back *)

Lemma ReadRecordHeader_fields (sec nsec incl orig : Z) :
  ReadRecordHeader (record_header_bytes sec nsec incl orig) =
  Some {| TsSec := uint32 sec; TsNsec := uint32 nsec;
          InclLen := uint32 incl; OrigLen := uint32 orig |}.
Proof.
  unfold ReadRecordHeader, record_header_bytes.
  rewrite !length_app, !length_le_bytes. cbn [Nat.add Nat.eqb negb].
  rewrite <- (drop_drop _ 4 8), <- (drop_drop _ 4 4).
  rewrite !drop_le_bytes_app, !Uint32_le_bytes, Uint32_le_bytes_nil.
  reflexivity.
Qed.

Lemma uint32_small (x : Z) : 0 <= x < 2 ^ 32 → uint32 x = x.
Proof. intros Hx. unfold uint32. apply Z.mod_small. exact Hx. Qed.

(** ** The record a valid packet becomes *)




(** ** Timestamps *)

(** C5, as the code has it.  For every non-negative timestamp of [T]
    nanoseconds, the seconds field read back from the record header is
    [T div 1000000000] reduced modulo 2^32, hence [T div 1000000000] itself
    whenever that is below 2^32, and the nanoseconds field is
    [T mod 1000000000], which lies in 0 .. 999999999. *)
Theorem timestamp_fields_of_nonnegative (ci : CaptureInfo) :
  0 <= UnixNano (Timestamp ci) →
  ∃ (hdr : list byte) (rh : RecordHeader),
    packetHeaderBuf ci = Some hdr ∧
    ReadRecordHeader hdr = Some rh ∧
    TsSec rh = (UnixNano (Timestamp ci) / 1000000000) mod 2 ^ 32 ∧
    (UnixNano (Timestamp ci) / 1000000000 < 2 ^ 32 →
     TsSec rh = UnixNano (Timestamp ci) / 1000000000) ∧
    TsNsec rh = UnixNano (Timestamp ci) mod 1000000000 ∧
    0 <= TsNsec rh < 1000000000.
Proof.
  intros HT. eexists. eexists.
  split; [apply packetHeaderBuf_eq|].
  split; [apply ReadRecordHeader_fields|].
  cbn [TsSec TsNsec]. unfold nanosPerSecond.
  rewrite Z.quot_div_nonneg, Z.rem_mod_nonneg by lia.
  pose proof (Z.mod_pos_bound (UnixNano (Timestamp ci)) 1000000000).
  pose proof (Z.div_pos (UnixNano (Timestamp ci)) 1000000000).
  rewrite (uint32_small (_ mod 1000000000)) by lia.
  split; [reflexivity|].
  split; [intros Hlt; apply uint32_small; lia|].
  split; [reflexivity | lia].
Qed.

Lemma timestamp_fields_of_nonnegative_1000s_500ns :
  let ci := {| Timestamp := {| UnixNano := 1000 * 1000000000 + 500 |};
               CaptureLength := 4; Length := 4 |} in
  0 <= UnixNano (Timestamp ci) ∧
  ∃ (hdr : list byte) (rh : RecordHeader),
    packetHeaderBuf ci = Some hdr ∧
    ReadRecordHeader hdr = Some rh ∧
    TsSec rh = 1000 ∧ TsNsec rh = 500.
Proof.
  intros ci.
  assert (H1 : 0 <= UnixNano (Timestamp ci)) by (cbn; lia).
  split; [exact H1|].
  destruct (timestamp_fields_of_nonnegative ci H1)
    as (hdr & rh & E1 & E2 & E3 & _ & E4 & _).
  exists hdr, rh. rewrite E3, E4. repeat split; assumption.
Defined.

(** C5 as the specification words it does not hold: on 7 February 2106,
    4294967296 seconds after the epoch, the count of seconds no longer
    fits the four-byte field and the field reads 0. *)
Lemma seconds_field_wraps_in_2106 :
  let ci := {| Timestamp := {| UnixNano := 4294967296 * 1000000000 |};
               CaptureLength := 0; Length := 0 |} in
  0 <= UnixNano (Timestamp ci) ∧
  is_int64 (UnixNano (Timestamp ci)) ∧
  UnixNano (Timestamp ci) / 1000000000 = 4294967296 ∧
  ∃ (hdr : list byte) (rh : RecordHeader),
    WritePacket (NewWriter {| buffered := [] |}) ci [] =
      Some (NewWriter {| buffered := hdr |}, None) ∧
    packetHeaderBuf ci = Some hdr ∧
    ReadRecordHeader hdr = Some rh ∧
    TsSec rh = 0 ∧
    TsSec rh ≠ UnixNano (Timestamp ci) / 1000000000.
Proof.
  intros ci. split; [cbn; lia|]. split; [unfold is_int64; cbn; lia|].
  split; [reflexivity|].
  exists (replicate 16 x00).
  exists {| TsSec := 0; TsNsec := 0; InclLen := 0; OrigLen := 0 |}.
  split; [vm_compute; reflexivity|].
  split; [vm_compute; reflexivity|].
  split; [vm_compute; reflexivity|].
  split; [reflexivity|]. intros E. vm_compute in E. discriminate E.
Qed.

(** ** Lengths *)

(** C10.  The two lengths are [int]s stored with [uint32(...)] and no range
    check: for every packet that passes validation, the captured-length and
    original-length fields read back from the record header the writer
    emits are the declared values modulo 2^32; and there is a valid packet
    (original length 2^32 + 4, an [int] on a 64-bit platform) whose
    original-length field differs from the declared value. *)
Theorem length_fields_are_reduced_mod_2_32 :
  (∀ (ci : CaptureInfo) (data : list byte),
     CaptureLength ci = Z.of_nat (length data) →
     CaptureLength ci <= Length ci →
     ∃ (hdr : list byte) (rh : RecordHeader),
       packetHeaderBuf ci = Some hdr ∧
       (∀ b, WritePacket (NewWriter {| buffered := b |}) ci data =
               Some (NewWriter {| buffered := b ++ hdr ++ data |}, None)) ∧
       ReadRecordHeader hdr = Some rh ∧
       InclLen rh = CaptureLength ci mod 2 ^ 32 ∧
       OrigLen rh = Length ci mod 2 ^ 32) ∧
  (∃ (ci : CaptureInfo) (data : list byte) (hdr : list byte)
     (rh : RecordHeader),
     is_int64 (CaptureLength ci) ∧ is_int64 (Length ci) ∧
     CaptureLength ci = Z.of_nat (length data) ∧
     CaptureLength ci <= Length ci ∧
     packetHeaderBuf ci = Some hdr ∧
     ReadRecordHeader hdr = Some rh ∧
     OrigLen rh = 4 ∧ Length ci = 2 ^ 32 + 4).
Proof.
  split.
  - intros ci data Hlen Hle.
    exists (packetHeaderFields ci). eexists.
    split; [apply packetHeaderBuf_eq|].
    split.
    { intros b. rewrite WritePacket_valid by assumption.
      unfold write_record. cbn. rewrite <- app_assoc. reflexivity. }
    split; [apply ReadRecordHeader_fields|].
    split; reflexivity.
  - exists {| Timestamp := {| UnixNano := 0 |};
              CaptureLength := 4; Length := 2 ^ 32 + 4 |}.
    exists [xde; xad; xbe; xef].
    exists (packetHeaderFields
              {| Timestamp := {| UnixNano := 0 |};
                 CaptureLength := 4; Length := 2 ^ 32 + 4 |}).
    exists {| TsSec := 0; TsNsec := 0; InclLen := 4; OrigLen := 4 |}.
    split; [unfold is_int64; cbn; lia|].
    split; [unfold is_int64; cbn; lia|].
    split; [reflexivity|]. split; [cbn; lia|].
    split; [apply packetHeaderBuf_eq|].
    split; [vm_compute; reflexivity|].
    split; reflexivity.
Qed.

Lemma length_fields_are_reduced_mod_2_32_large_frame :
  let ci := {| Timestamp := {| UnixNano := 0 |};
               CaptureLength := 4; Length := 2 ^ 32 + 4 |} in
  let data := [xde; xad; xbe; xef] in
  CaptureLength ci = Z.of_nat (length data) ∧
  CaptureLength ci <= Length ci ∧
  ∃ (hdr : list byte) (rh : RecordHeader),
    packetHeaderBuf ci = Some hdr ∧
    ReadRecordHeader hdr = Some rh ∧
    InclLen rh = 4 ∧ OrigLen rh = 4.
Proof.
  intros ci data.
  assert (H1 : CaptureLength ci = Z.of_nat (length data)) by reflexivity.
  assert (H2 : CaptureLength ci <= Length ci) by (cbn; lia).
  split; [exact H1|]. split; [exact H2|].
  destruct (proj1 length_fields_are_reduced_mod_2_32 ci data H1 H2)
    as (hdr & rh & E1 & _ & E2 & E3 & E4).
  exists hdr, rh. rewrite E3, E4. repeat split; assumption.
Defined.

(** ** A whole capture *)

Section Capture.
Context {W : Type} `{IoWriter W}.

Lemma WritePacket_nil_grows (wr wr' : Writer W) (ci : CaptureInfo)
    (data : list byte) :
  WritePacket wr ci data = Some (wr', None) →
  contents (w wr') = contents (w wr) ++ record_bytes (ci, data) ∧
  Z.of_nat (length (record_bytes (ci, data))) = 16 + CaptureLength ci.
Proof.
  intros Hw. apply WritePacket_nil_inv in Hw as (Hlen & _ & Hc).
  split; [exact Hc|].
  unfold record_bytes. cbn [fst snd].
  rewrite length_app, length_packetHeaderFields. lia.
Qed.

Lemma packets_written_contents (wr wr' : Writer W)
    (pkts : list (CaptureInfo * list byte)) :
  packets_written wr pkts wr' →
  contents (w wr') = contents (w wr) ++ concat (map record_bytes pkts) ∧
  Z.of_nat (length (concat (map record_bytes pkts))) = records_size pkts.
Proof.
  induction 1 as [wr|wr wr1 wr2 ci data rest Hw Hrest [IHc IHl]].
  - cbn. rewrite app_nil_r. split; reflexivity.
  - apply WritePacket_nil_grows in Hw as [Hc Hl].
    cbn [map concat records_size foldr fst].
    split.
    + rewrite IHc, Hc, <- app_assoc. reflexivity.
    + rewrite length_app. fold (records_size rest). lia.
Qed.

End Capture.

Lemma packets_written_Buffer (b : list byte)
    (pkts : list (CaptureInfo * list byte)) :
  Forall (λ p, CaptureLength p.1 = Z.of_nat (length p.2) ∧
               CaptureLength p.1 <= Length p.1) pkts →
  packets_written (NewWriter {| buffered := b |}) pkts
    (NewWriter {| buffered := b ++ concat (map record_bytes pkts) |}).
Proof.
  intros Hv. revert b.
  induction Hv as [|[ci data] rest [Hlen Hle] _ IH]; intros b.
  - cbn. rewrite app_nil_r. constructor.
  - cbn [map concat]. rewrite app_assoc.
    eapply packets_written_cons; [|apply IH].
    rewrite WritePacket_valid by assumption.
    unfold write_record, record_bytes. cbn. rewrite <- app_assoc.
    reflexivity.
Qed.

(** C6.  A call to [WritePacket] that returns no error appends to the sink
    the 16-byte record header and the payload, 16 + captured-length bytes
    in all.  After [WriteFileHeader] on an empty sink and then N calls to
    [WritePacket], all without error, the sink holds the file header
    followed by the records in the order of the calls, that is
    24 + Σ (16 + capturedLength_i) bytes.  On an in-memory buffer every
    sequence of valid packets is written in this way. *)
Theorem sink_holds_header_then_records_in_order :
  (∀ (W : Type) (IW : IoWriter W) (wr wr' : Writer W) (ci : CaptureInfo)
     (data : list byte),
     WritePacket wr ci data = Some (wr', None) →
     contents (w wr') = contents (w wr) ++ packetHeaderFields ci ++ data ∧
     Z.of_nat (length (contents (w wr'))) =
       Z.of_nat (length (contents (w wr))) + (16 + CaptureLength ci)) ∧
  (∀ (W : Type) (IW : IoWriter W) (wr0 wr1 wr2 : Writer W)
     (snaplen linktype : Z) (pkts : list (CaptureInfo * list byte)),
     contents (w wr0) = [] →
     WriteFileHeader wr0 snaplen linktype = Some (wr1, None) →
     packets_written wr1 pkts wr2 →
     contents (w wr2) =
       file_header_bytes snaplen linktype ++ concat (map record_bytes pkts) ∧
     Z.of_nat (length (contents (w wr2))) = 24 + records_size pkts) ∧
  (∀ (snaplen linktype : Z) (pkts : list (CaptureInfo * list byte)),
     Forall (λ p, CaptureLength p.1 = Z.of_nat (length p.2) ∧
                  CaptureLength p.1 <= Length p.1) pkts →
     ∃ wr1 wr2 : Writer Buffer,
       WriteFileHeader (NewWriter {| buffered := [] |}) snaplen linktype =
         Some (wr1, None) ∧
       packets_written wr1 pkts wr2).
Proof.
  split; [|split].
  - intros W IW wr wr' ci data Hw.
    apply WritePacket_nil_grows in Hw as [Hc Hl].
    split; [exact Hc|].
    rewrite Hc, length_app. fold (record_bytes (ci, data)). lia.
  - intros W IW wr0 wr1 wr2 snaplen linktype pkts H0 Hh Hp.
    rewrite WriteFileHeader_eq in Hh.
    destruct (Write (w wr0) (file_header_bytes snaplen linktype))
      as [s [n [e|]]] eqn:E; [discriminate Hh|].
    cbn in Hh. injection Hh as <-.
    apply Write_accepts in E. rewrite H0 in E. cbn [app] in E.
    apply packets_written_contents in Hp as [Hc Hl]. cbn [w] in Hc.
    rewrite E in Hc. split; [exact Hc|].
    rewrite Hc, length_app, length_file_header_bytes. lia.
  - intros snaplen linktype pkts Hv.
    eexists. eexists.
    split; [rewrite WriteFileHeader_eq; reflexivity|].
    cbn. apply packets_written_Buffer. exact Hv.
Qed.

(** Scenario E with two packets, of 4 and 2 bytes: 24 + 20 + 18 bytes. *)
Lemma sink_holds_header_then_records_in_order_two_packets :
  let ci1 := {| Timestamp := {| UnixNano := 1000 * 1000000000 + 500 |};
                CaptureLength := 4; Length := 4 |} in
  let ci2 := {| Timestamp := {| UnixNano := 1001 * 1000000000 |};
                CaptureLength := 2; Length := 60 |} in
  let pkts := [(ci1, [xde; xad; xbe; xef]); (ci2, [xca; xfe])] in
  ∃ wr2 : Writer Buffer,
    packets_written
      (NewWriter {| buffered := file_header_bytes 65536 1 |}) pkts wr2 ∧
    Z.of_nat (length (contents (w wr2))) = 62 ∧
    contents (w wr2) =
      [x4d; x3c; xb2; xa1; x02; x00; x04; x00;
       x00; x00; x00; x00; x00; x00; x00; x00;
       x00; x00; x01; x00; x01; x00; x00; x00;
       xe8; x03; x00; x00; xf4; x01; x00; x00;
       x04; x00; x00; x00; x04; x00; x00; x00;
       xde; xad; xbe; xef;
       xe9; x03; x00; x00; x00; x00; x00; x00;
       x02; x00; x00; x00; x3c; x00; x00; x00;
       xca; xfe].
Proof.
  intros ci1 ci2 pkts.
  assert (Hv : Forall (λ p, CaptureLength p.1 = Z.of_nat (length p.2) ∧
                            CaptureLength p.1 <= Length p.1) pkts).
  { repeat constructor; cbn; lia. }
  destruct sink_holds_header_then_records_in_order as (_ & Hall & Hrun).
  destruct (Hrun 65536 1 pkts Hv) as (wr1 & wr2 & Hh & Hp).
  destruct (Hall Buffer Buffer_IoWriter (NewWriter {| buffered := [] |})
              wr1 wr2 65536 1
pkts eq_refl Hh Hp) as [Hc Hl].
  exists wr2.
  assert (E1 : wr1 = NewWriter {| buffered := file_header_bytes 65536 1 |}).
  { rewrite WriteFileHeader_eq in Hh. injection Hh as <-. reflexivity. }
  rewrite <- E1. split; [exact Hp|].
  split; [rewrite Hl; reflexivity|].
  rewrite Hc. vm_compute. reflexivity.
Defined.

(** ** Errors of [WritePacket], on any sink *)

Section PacketErrors.
Context {W : Type} `{IoWriter W}.



Lemma packets_written_valid (wr wr' : Writer W)
    (pkts : list (CaptureInfo * list byte)) :
  packets_written wr pkts wr' →
  Forall (λ p, CaptureLength p.1 = Z.of_nat (length p.2) ∧
               CaptureLength p.1 <= Length p.1) pkts.
Proof.
  induction 1 as [wr|wr wr1 wr2 ci data rest Hw Hrest IH].
  - constructor.
  - constructor; [|exact IH].
    apply WritePacket_nil_inv in Hw. cbn [fst snd]. tauto.
Qed.

End PacketErrors.


(** X2.  When a valid packet's record header is refused by the sink, the
    call returns that error wrapped as "error writing packet header", the
    payload is never offered to the sink (the sink is left as the header
    write left it), and the error is not a validation error. *)
Theorem WritePacket_header_refused
    (W : Type) (IW : IoWriter W) (wr : Writer W) (ci : CaptureInfo)
    (data : list byte) (s1 : W) (n : Z) (e : IoError) :
  CaptureLength ci = Z.of_nat (length data) →
  CaptureLength ci <= Length ci →
  Write (w wr) (packetHeaderFields ci) = (s1, (n, Some e)) →
  WritePacket wr ci data =
    Some (NewWriter s1, Some (ErrWritingPacketHeader e)) ∧
  is_validation (ErrWritingPacketHeader e) = false.
Proof.
  intros Hlen Hle Hw.
  rewrite WritePacket_valid by assumption.
  unfold write_record. rewrite Hw. split; reflexivity.
Qed.

(** A sink with room for ten bytes keeps the ten header bytes that fit and
    never sees the payload. *)
Lemma WritePacket_header_refused_room_for_10 :
  let ci := {| Timestamp := {| UnixNano := 1000 * 1000000000 + 500 |};
               CaptureLength := 2; Length := 2 |} in
  let data := [xca; xfe] in
  let s1 := {| stored := [xe8; x03; x00; x00; xf4; x01; x00; x00;
                          x02; x00];
               room := 0 |} in
  CaptureLength ci = Z.of_nat (length data) ∧
  CaptureLength ci <= Length ci ∧
  Write {| stored := []; room := 10 |} (packetHeaderFields ci) =
    (s1, (10, Some ErrShortWrite)) ∧
  WritePacket (NewWriter {| stored := []; room := 10 |}) ci data =
    Some (NewWriter s1, Some (ErrWritingPacketHeader ErrShortWrite)).
Proof.
  intros ci data s1.
  assert (H1 : CaptureLength ci = Z.of_nat (length data)) by reflexivity.
  assert (H2 : CaptureLength ci <= Length ci) by (cbn; lia).
  assert (H3 : Write {| stored := []; room := 10 |} (packetHeaderFields ci)
               = (s1, (10, Some ErrShortWrite)))
    by (vm_compute; reflexivity).
  split; [exact H1|]. split; [exact H2|]. split; [exact H3|].
  exact (proj1 (WritePacket_header_refused Bounded Bounded_IoWriter
                  (NewWriter {| stored := []; room := 10 |}) ci data
                  s1 10 ErrShortWrite H1 H2 H3)).
Defined.

(** X3.  For a valid packet the call returns no error exactly when both
    writes, of the record header and of the payload, return none; and when
    the header was accepted but the payload was refused, the sink's error
    is returned as it is, after the header has reached the sink. *)
Theorem WritePacket_nil_iff_both_writes_nil
    (W : Type) (IW : IoWriter W) (wr : Writer W) (ci : CaptureInfo)
    (data : list byte) :
  CaptureLength ci = Z.of_nat (length data) →
  CaptureLength ci <= Length ci →
  ((∃ wr', WritePacket wr ci data = Some (wr', None)) ↔
   ((Write (w wr) (packetHeaderFields ci)).2.2 = None ∧
    (Write (Write (w wr) (packetHeaderFields ci)).1 data).2.2 = None)) ∧
  (∀ s1 n1 s2 n2 e,
     Write (w wr) (packetHeaderFields ci) = (s1, (n1, None)) →
     Write s1 data = (s2, (n2, Some e)) →
     WritePacket wr ci data = Some (NewWriter s2, Some (ErrSink e)) ∧
     contents s1 = contents (w wr) ++ packetHeaderFields ci).
Proof.
  intros Hlen Hle.
  rewrite WritePacket_valid by assumption. unfold write_record.
  split.
  - destruct (Write (w wr) (packetHeaderFields ci)) as [s1 [n1 [e1|]]];
      cbn [fst snd].
    + split; [intros [wr' [=]] | intros [[=] _]].
    + destruct (Write s1 data) as [s2 [n2 [e2|]]]; cbn.
      * split; [intros [wr' [=]] | intros [_ [=]]].
      * split; [intros _; split; reflexivity | intros _; eexists; reflexivity].
  - intros s1 n1 s2 n2 e E1 E2. rewrite E1, E2. cbn.
    split; [reflexivity|]. exact (Write_accepts _ _ _ _ E1).
Qed.

(** Room for seventeen bytes: the header and one byte of payload. *)
Lemma WritePacket_nil_iff_both_writes_nil_room_for_17 :
  let ci := {| Timestamp := {| UnixNano := 0 |};
               CaptureLength := 2; Length := 2 |} in
  let data := [xca; xfe] in
  CaptureLength ci = Z.of_nat (length data) ∧
  CaptureLength ci <= Length ci ∧
  WritePacket (NewWriter {| stored := []; room := 17 |}) ci data =
    Some (NewWriter {| stored := packetHeaderFields ci ++ [xca];
                       room := 0 |},
          Some (ErrSink ErrShortWrite)).
Proof.
  intros ci data.
  assert (H1 : CaptureLength ci = Z.of_nat (length data)) by reflexivity.
  assert (H2 : CaptureLength ci <= Length ci) by (cbn; lia).
  split; [exact H1|]. split; [exact H2|].
  refine (proj1 (proj2 (WritePacket_nil_iff_both_writes_nil Bounded
                          Bounded_IoWriter
                          (NewWriter {| stored := []; room := 17 |})
                          ci data H1 H2)
                   {| stored := packetHeaderFields ci; room := 1 |} 16
                   _ 1 ErrShortWrite _ _));
    vm_compute; reflexivity.
Defined.

(** ** Timestamps outside the fields' range *)

(** X4.  A timestamp before the epoch that is not a whole number of
    seconds gets a nanoseconds field outside 0 .. 999999999: the remainder
    of the truncating division is negative, and [uint32] turns it into
    2^32 minus the nanoseconds missing to the next second towards zero. *)
Theorem nanoseconds_field_of_negative_timestamp (ci : CaptureInfo) :
  UnixNano (Timestamp ci) < 0 →
  (- UnixNano (Timestamp ci)) mod 1000000000 ≠ 0 →
  ∃ (hdr : list byte) (rh : RecordHeader),
    packetHeaderBuf ci = Some hdr ∧
    ReadRecordHeader hdr = Some rh ∧
    TsNsec rh = 2 ^ 32 - (- UnixNano (Timestamp ci)) mod 1000000000 ∧
    1000000000 <= TsNsec rh.
Proof.
  intros Hneg Hfrac. eexists. eexists.
  split; [apply packetHeaderBuf_eq|].
  split; [apply ReadRecordHeader_fields|].
  cbn [TsNsec]. unfold nanosPerSecond, uint32.
  set (T := UnixNano (Timestamp ci)) in *.
  assert (Hrem : Z.rem T 1000000000 = - ((- T) mod 1000000000)).
  { rewrite <- (Z.opp_involutive T) at 1.
    rewrite Z.rem_opp_l', Z.rem_mod_nonneg by lia. reflexivity. }
  rewrite Hrem.
  pose proof (Z.mod_pos_bound (- T) 1000000000).
  assert (E : (- ((- T) mod 1000000000)) mod 2 ^ 32 =
              2 ^ 32 - (- T) mod 1000000000).
  { symmetry. apply (Z.mod_unique _ _ (-1)); lia. }
  rewrite E. split; [reflexivity | lia].
Qed.

Lemma nanoseconds_field_of_negative_timestamp_minus_1ns :
  let ci := {| Timestamp := {| UnixNano := -1 |};
               CaptureLength := 0; Length := 0 |} in
  UnixNano (Timestamp ci) < 0 ∧
  (- UnixNano (Timestamp ci)) mod 1000000000 ≠ 0 ∧
  ∃ (hdr : list byte) (rh : RecordHeader),
    packetHeaderBuf ci = Some hdr ∧
    ReadRecordHeader hdr = Some rh ∧
    TsNsec rh = 4294967295.
Proof.
  intros ci.
  assert (H1 : UnixNano (Timestamp ci) < 0) by (cbn; lia).
  assert (H2 : (- UnixNano (Timestamp ci)) mod 1000000000 ≠ 0)
    by (intros E; vm_compute in E; discriminate E).
  split; [exact H1|]. split; [exact H2|].
  destruct (nanoseconds_field_of_negative_timestamp ci H1 H2)
    as (hdr & rh & E1 & E2 & E3 & _).
  exists hdr, rh. rewrite E3. repeat split; assumption.
Defined.

(** X5.  The record header keeps a non-negative timestamp modulo
    2^32 seconds: seconds field times 10^9 plus nanoseconds field is
    [T mod (2^32 * 10^9)], which is [T] itself up to the year 2106. *)
Theorem timestamp_recovered_mod_2_32_seconds (ci : CaptureInfo) :
  0 <= UnixNano (Timestamp ci) →
  ∃ (hdr : list byte) (rh : RecordHeader),
    packetHeaderBuf ci = Some hdr ∧
    ReadRecordHeader hdr = Some rh ∧
    TsSec rh * 1000000000 + TsNsec rh =
      UnixNano (Timestamp ci) mod (2 ^ 32 * 1000000000) ∧
    (UnixNano (Timestamp ci) < 2 ^ 32 * 1000000000 →
     TsSec rh * 1000000000 + TsNsec rh = UnixNano (Timestamp ci)).
Proof.
  intros HT. eexists. eexists.
  split; [apply packetHeaderBuf_eq|].
  split; [apply ReadRecordHeader_fields|].
  cbn [TsSec TsNsec]. unfold nanosPerSecond.
  set (T := UnixNano (Timestamp ci)) in *.
  rewrite Z.quot_div_nonneg, Z.rem_mod_nonneg by lia.
  pose proof (Z.mod_pos_bound T 1000000000).
  rewrite (uint32_small (T mod 1000000000)) by lia.
  unfold uint32.
  assert (E : ((T / 1000000000) mod 2 ^ 32) * 1000000000 +
              T mod 1000000000 = T mod (2 ^ 32 * 1000000000)).
  { change (2 ^ 32) with 4294967296.
    change (4294967296 * 1000000000) with 4294967296000000000.
    Z.div_mod_to_equations. lia. }
  split; [exact E|].
  intros Hlt. rewrite E. apply Z.mod_small. lia.
Qed.

Lemma timestamp_recovered_mod_2_32_seconds_in_2106 :
  let ci := {| Timestamp :=
                 {| UnixNano := 4294967296 * 1000000000 + 1500000000 |};
               CaptureLength := 0; Length := 0 |} in
  0 <= UnixNano (Timestamp ci) ∧
  ∃ (hdr : list byte) (rh : RecordHeader),
    packetHeaderBuf ci = Some hdr ∧
    ReadRecordHeader hdr = Some rh ∧
    TsSec rh * 1000000000 + TsNsec rh = 1500000000.
Proof.
  intros ci.
  assert (H1 : 0 <= UnixNano (Timestamp ci)) by (cbn; lia).
  split; [exact H1|].
  destruct (timestamp_recovered_mod_2_32_seconds ci H1)
    as (hdr & rh & E1 & E2 & E3 & _).
  exists hdr, rh. rewrite E3. repeat split; assumption.
Defined.

(** ** Lengths that fit *)

(** X6.  The two checks of [WritePacket] keep negative lengths away from
    the encoder: for a packet that passes them and whose original length
    is below 2^32, the captured-length field is the length of the payload,
    the original-length field is the declared length, and the first does
    not exceed the second. *)
Theorem length_fields_exact_below_2_32 (ci : CaptureInfo)
    (data : list byte) :
  CaptureLength ci = Z.of_nat (length data) →
  CaptureLength ci <= Length ci →
  Length ci < 2 ^ 32 →
  ∃ (hdr : list byte) (rh : RecordHeader),
    packetHeaderBuf ci = Some hdr ∧
    ReadRecordHeader hdr = Some rh ∧
    InclLen rh = Z.of_nat (length data) ∧
    OrigLen rh = Length ci ∧
    0 <= InclLen rh <= OrigLen rh.
Proof.
  intros Hlen Hle Hfit. eexists. eexists.
  split; [apply packetHeaderBuf_eq|].
  split; [apply ReadRecordHeader_fields|].
  cbn [InclLen OrigLen].
  rewrite !uint32_small by lia.
  split; [exact Hlen|]. split; [reflexivity | lia].
Qed.

Lemma length_fields_exact_below_2_32_truncated_frame :
  let ci := {| Timestamp := {| UnixNano := 0 |};
               CaptureLength := 2; Length := 1514 |} in
  let data := [xca; xfe] in
  CaptureLength ci = Z.of_nat (length data) ∧
  CaptureLength ci <= Length ci ∧
  Length ci < 2 ^ 32 ∧
  ∃ (hdr : list byte) (rh : RecordHeader),
    packetHeaderBuf ci = Some hdr ∧
    ReadRecordHeader hdr = Some rh ∧
    InclLen rh = 2 ∧ OrigLen rh = 1514.
Proof.
  intros ci data.
  assert (H1 : CaptureLength ci = Z.of_nat (length data)) by reflexivity.
  assert (H2 : CaptureLength ci <= Length ci) by (cbn; lia).
  assert (H3 : Length ci < 2 ^ 32) by (cbn; lia).
  split; [exact H1|]. split; [exact H2|]. split; [exact H3|].
  destruct (length_fields_exact_below_2_32 ci data H1 H2 H3)
    as (hdr & rh & E1 & E2 & E3 & E4 & _).
  exists hdr, rh. rewrite E3, E4. repeat split; assumption.
Defined.

(** ** Reading a capture back *)

Lemma ReadRecordHeader_packetHeaderFields (ci : CaptureInfo)
    (data : list byte) :
  CaptureLength ci = Z.of_nat (length data) →
  CaptureLength ci <= Length ci →
  fits_record (ci, data) →
  ReadRecordHeader (packetHeaderFields ci) = Some (read_back (ci, data)).1.
Proof.
  intros Hlen Hle [HT HL]. cbn [fst] in HT, HL.
  unfold packetHeaderFields. rewrite ReadRecordHeader_fields.
  unfold read_back, nanosPerSecond. cbn [fst].
  rewrite Z.quot_div_nonneg, Z.rem_mod_nonneg by lia.
  pose proof (Z.mod_pos_bound (UnixNano (Timestamp ci)) 1000000000).
  assert (0 <= UnixNano (Timestamp ci) / 1000000000 < 2 ^ 32).
  { split; [apply Z.div_pos; lia|].
    apply Z.div_lt_upper_bound; lia. }
  rewrite !uint32_small by lia. reflexivity.
Qed.

Lemma ReadRecords_nil (fuel : nat) : ReadRecords fuel [] = Some [].
Proof. destruct fuel; reflexivity. Qed.

Lemma ReadRecords_record (fuel : nat) (ci : CaptureInfo) (data : list byte)
    (rest : list byte) :
  CaptureLength ci = Z.of_nat (length data) →
  CaptureLength ci <= Length ci →
  fits_record (ci, data) →
  ReadRecords (S fuel) (record_bytes (ci, data) ++ rest) =
  recs ← ReadRecords fuel rest; Some (read_back (ci, data) :: recs).
Proof.
  intros Hlen Hle Hfit.
  unfold record_bytes. cbn [fst snd]. rewrite <- app_assoc.
  cbn [ReadRecords].
  pose proof (length_packetHeaderFields ci) as H16.
  assert (Hnz : (length (packetHeaderFields ci ++ data ++ rest) =? 0)%nat
                = false).
  { apply Nat.eqb_neq. rewrite length_app, H16. lia. }
  rewrite Hnz.
  rewrite (take_app_length' _ _ 16) by (symmetry; exact H16).
  rewrite (drop_app_length' _ _ 16) by (symmetry; exact H16).
  rewrite (ReadRecordHeader_packetHeaderFields ci data) by assumption.
  cbn [mbind option_bind read_back fst snd InclLen].
  replace (Z.to_nat (CaptureLength ci)) with (length data) by lia.
  assert (Hlt : (length (data ++ rest) <? length data)%nat = false).
  { apply Nat.ltb_ge. rewrite length_app. lia. }
  rewrite Hlt, drop_app_length, take_app_length. reflexivity.
Qed.

Lemma ReadRecords_records (pkts : list (CaptureInfo * list byte)) :
  Forall (λ p, CaptureLength p.1 = Z.of_nat (length p.2) ∧
               CaptureLength p.1 <= Length p.1) pkts →
  Forall fits_record pkts →
  ∀ fuel, (length pkts <= fuel)%nat →
  ReadRecords fuel (concat (map record_bytes pkts)) =
  Some (map read_back pkts).
Proof.
  intros Hv. induction Hv as [|[ci data] rest [Hlen Hle] _ IH];
    intros Hf fuel Hfuel.
  - apply ReadRecords_nil.
  - apply Forall_cons in Hf as [Hfit Hf].
    destruct fuel as [|fuel]; [cbn in Hfuel; lia|].
    cbn [map concat].
    rewrite ReadRecords_record by assumption.
    rewrite IH by (try assumption; cbn in Hfuel; lia).
    reflexivity.
Qed.

Lemma length_records_ge (pkts : list (CaptureInfo * list byte)) :
  (length pkts <= length (concat (map record_bytes pkts)))%nat.
Proof.
  induction pkts as [|[ci data] rest IH]; [reflexivity|].
  cbn [map concat length]. unfold record_bytes at 1. cbn [fst snd].
  rewrite !length_app, length_packetHeaderFields. lia.
Qed.

Lemma ReadFile_capture (snaplen linktype : Z)
    (pkts : list (CaptureInfo * list byte)) :
  Forall (λ p, CaptureLength p.1 = Z.of_nat (length p.2) ∧
               CaptureLength p.1 <= Length p.1) pkts →
  Forall fits_record pkts →
  ReadFile (file_header_bytes snaplen linktype ++
            concat (map record_bytes pkts)) =
  Some ({| Magic := 0xA1B23C4D; VersionMajor := 2; VersionMinor := 4;
           ThisZone := 0; SigFigs := 0;
           SnapLen := uint32 snaplen; LinkType := uint32 linktype |},
        map read_back pkts).
Proof.
  intros Hv Hf. unfold ReadFile.
  pose proof (length_file_header_bytes snaplen linktype) as H24.
  rewrite (take_app_length' _ _ 24) by (symmetry; exact H24).
  rewrite (drop_app_length' _ _ 24) by (symmetry; exact H24).
  rewrite file_header_bytes_eq at 1. rewrite ReadFileHeader_fields.
  cbn [mbind option_bind].
  rewrite ReadRecords_records; [reflexivity|assumption|assumption|].
  rewrite length_app. pose proof (length_records_ge pkts). lia.
Qed.

(** X7.  A capture can be read back.  After [WriteFileHeader] on an empty
    sink and any number of calls to [WritePacket], all without error, a
    reader of the file format gets from the contents of the sink the file
    header with the same snapshot length and link type and, record by
    record in the order of the calls, each packet's seconds and
    nanoseconds, its two lengths and its payload, provided every timestamp
    lies between the epoch and 2^32 seconds after it and every original
    length is below 2^32. *)
Theorem ReadFile_of_written_capture
    (W : Type) (IW : IoWriter W) (wr0 wr1 wr2 : Writer W)
    (snaplen linktype : Z) (pkts : list (CaptureInfo * list byte)) :
  is_uint32 snaplen → is_uint32 linktype →
  contents (w wr0) = [] →
  WriteFileHeader wr0 snaplen linktype = Some (wr1, None) →
  packets_written wr1 pkts wr2 →
  Forall fits_record pkts →
  ReadFile (contents (w wr2)) =
  Some ({| Magic := 0xA1B23C4D; VersionMajor := 2; VersionMinor := 4;
           ThisZone := 0; SigFigs := 0;
           SnapLen := snaplen; LinkType := linktype |},
        map read_back pkts).
Proof.
  intros Hs Hl H0 Hh Hp Hf.
  rewrite WriteFileHeader_eq in Hh.
  destruct (Write (w wr0) (file_header_bytes snaplen linktype))
    as [s [n [e|]]] eqn:E; [discriminate Hh|].
  cbn in Hh. injection Hh as <-.
  apply Write_accepts in E. rewrite H0 in E. cbn [app] in E.
  pose proof (packets_written_valid _ _ _ Hp) as Hv.
  apply packets_written_contents in Hp as [Hc _]. cbn [w] in Hc.
  rewrite Hc, E, ReadFile_capture by assumption.
  rewrite !uint32_small by assumption. reflexivity.
Qed.

Lemma ReadFile_of_written_capture_two_packets :
  let ci1 := {| Timestamp := {| UnixNano := 1000 * 1000000000 + 500 |};
                CaptureLength := 4; Length := 4 |} in
  let ci2 := {| Timestamp := {| UnixNano := 1001 * 1000000000 |};
                CaptureLength := 2; Length := 60 |} in
  let pkts := [(ci1, [xde; xad; xbe; xef]); (ci2, [xca; xfe])] in
  let wr0 := NewWriter {| buffered := [] |} in
  let wr1 := NewWriter {| buffered := file_header_bytes 65536 1 |} in
  let wr2 := NewWriter {| buffered := file_header_bytes 65536 1 ++
                            concat (map record_bytes pkts) |} in
  is_uint32 65536 ∧ is_uint32 1 ∧
  WriteFileHeader wr0 65536 1 = Some (wr1, None) ∧
  packets_written wr1 pkts wr2 ∧
  Forall fits_record pkts ∧
  ReadFile (contents (w wr2)) =
  Some ({| Magic := 0xA1B23C4D; VersionMajor := 2; VersionMinor := 4;
           ThisZone := 0; SigFigs := 0; SnapLen := 65536; LinkType := 1 |},
        [({| TsSec := 1000; TsNsec := 500; InclLen := 4; OrigLen := 4 |},
          [xde; xad; xbe; xef]);
         ({| TsSec := 1001; TsNsec := 0; InclLen := 2; OrigLen := 60 |},
          [xca; xfe])]).
Proof.
  intros ci1 ci2 pkts wr0 wr1 wr2.
  assert (H1 : is_uint32 65536) by (unfold is_uint32; lia).
  assert (H2 : is_uint32 1) by (unfold is_uint32; lia).
  assert (H3 : WriteFileHeader wr0 65536 1 = Some (wr1, None))
    by (rewrite WriteFileHeader_eq; reflexivity).
  assert (H4 : packets_written wr1 pkts wr2).
  { apply packets_written_Buffer. repeat constructor; cbn; lia. }
  assert (H5 : Forall fits_record pkts).
  { repeat constructor; cbn; lia. }
  split; [exact H1|]. split; [exact H2|]. split; [exact H3|].
  split; [exact H4|]. split; [exact H5|].
  exact (ReadFile_of_written_capture Buffer Buffer_IoWriter wr0 wr1 wr2
           65536 1 pkts H1 H2 eq_refl H3 H4 H5).
Defined.

(** ** Calls out of order *)

(** X8.  The writer keeps no record of what it has written: a second
    [WriteFileHeader] is not refused, and when both calls return no error
    the sink has gained two headers, 48 bytes, one after the other; an
    in-memory buffer accepts both. *)
Theorem WriteFileHeader_twice_writes_two_headers
    (W : Type) (IW : IoWriter W) (wr0 wr1 wr2 : Writer W)
    (snaplen1 linktype1 snaplen2 linktype2 : Z) :
  WriteFileHeader wr0 snaplen1 linktype1 = Some (wr1, None) →
  WriteFileHeader wr1 snaplen2 linktype2 = Some (wr2, None) →
  contents (w wr2) =
    contents (w wr0) ++ file_header_bytes snaplen1 linktype1 ++
    file_header_bytes snaplen2 linktype2 ∧
  length (contents (w wr2)) = (length (contents (w wr0)) + 48)%nat.
Proof.
  intros Ha Hb.
  assert (Hstep : ∀ (a b : Writer W) s l,
            WriteFileHeader a s l = Some (b, None) →
            contents (w b) = contents (w a) ++ file_header_bytes s l).
  { intros a b s l Hw. rewrite WriteFileHeader_eq in Hw.
    destruct (Write (w a) (file_header_bytes s l))
      as [s' [n [e|]]] eqn:E; [discriminate Hw|].
    cbn in Hw. injection Hw as <-. exact (Write_accepts _ _ _ _ E). }
  apply Hstep in Ha, Hb.
  assert (Hc : contents (w wr2) =
               contents (w wr0) ++ file_header_bytes snaplen1 linktype1 ++
               file_header_bytes snaplen2 linktype2).
  { rewrite Hb, Ha, <- app_assoc. reflexivity. }
  split; [exact Hc|].
  rewrite Hc, !length_app, !length_file_header_bytes. lia.
Qed.

Lemma WriteFileHeader_twice_writes_two_headers_on_buffer :
  let wr0 := NewWriter {| buffered := [] |} in
  let wr1 := NewWriter {| buffered := file_header_bytes 65536 1 |} in
  let wr2 := NewWriter {| buffered := file_header_bytes 65536 1 ++
                            file_header_bytes 1500 105 |} in
  WriteFileHeader wr0 65536 1 = Some (wr1, None) ∧
  WriteFileHeader wr1 1500 105 = Some (wr2, None) ∧
  length (contents (w wr2)) = 48%nat.
Proof.
  intros wr0 wr1 wr2.
  assert (H1 : WriteFileHeader wr0 65536 1 = Some (wr1, None))
    by (rewrite WriteFileHeader_eq; reflexivity).
  assert (H2 : WriteFileHeader wr1 1500 105 = Some (wr2, None))
    by (rewrite WriteFileHeader_eq; reflexivity).
  split; [exact H1|]. split; [exact H2|].
  exact (proj2 (WriteFileHeader_twice_writes_two_headers Buffer
                  Buffer_IoWriter wr0 wr1 wr2 65536 1 1500 105 H1 H2)).
Defined.



(** X10.  The checks compare the lengths as [int]s, the header stores
    them as [uint32]: a packet that passes both checks, with a payload of
    fewer than 2^32 bytes and an original length whose low 32 bits are
    below the captured length, gets a record header in which the
    captured-length field exceeds the original-length field. *)
Theorem captured_field_above_original_field (ci : CaptureInfo)
    (data : list byte) :
  CaptureLength ci = Z.of_nat (length data) →
  CaptureLength ci <= Length ci →
  CaptureLength ci < 2 ^ 32 →
  Length ci mod 2 ^ 32 < CaptureLength ci →
  ∃ (hdr : list byte) (rh : RecordHeader),
    packetHeaderBuf ci = Some hdr ∧
    (∀ b, WritePacket (NewWriter {| buffered := b |}) ci data =
            Some (NewWriter {| buffered := b ++ hdr ++ data |}, None)) ∧
    ReadRecordHeader hdr = Some rh ∧
    InclLen rh = Z.of_nat (length data) ∧
    OrigLen rh < InclLen rh.
Proof.
  intros Hlen Hle Hc Hm. eexists. eexists.
  split; [apply packetHeaderBuf_eq|].
  split.
  { intros b. rewrite WritePacket_valid by assumption.
    unfold write_record. cbn. rewrite <- app_assoc. reflexivity. }
  split; [apply ReadRecordHeader_fields|].
  cbn [InclLen OrigLen]. rewrite (uint32_small (CaptureLength ci)) by lia.
  split; [exact Hlen|]. unfold uint32. lia.
Qed.

Lemma captured_field_above_original_field_jumbo :
  let ci := {| Timestamp := {| UnixNano := 0 |};
               CaptureLength := 4; Length := 2 ^ 32 + 1 |} in
  let data := [xde; xad; xbe; xef] in
  CaptureLength ci = Z.of_nat (length data) ∧
  CaptureLength ci <= Length ci ∧
  CaptureLength ci < 2 ^ 32 ∧
  Length ci mod 2 ^ 32 < CaptureLength ci ∧
  ∃ (hdr : list byte) (rh : RecordHeader),
    packetHeaderBuf ci = Some hdr ∧
    ReadRecordHeader hdr = Some rh ∧
    InclLen rh = 4 ∧ OrigLen rh < 4.
Proof.
  intros ci data.
  assert (H1 : CaptureLength ci = Z.of_nat (length data)) by reflexivity.
  assert (H2 : CaptureLength ci <= Length ci) by (cbn; lia).
  assert (H3 : CaptureLength ci < 2 ^ 32) by (cbn; lia).
  assert (H4 : Length ci mod 2 ^ 32 < CaptureLength ci)
    by (vm_compute; reflexivity).
  split; [exact H1|]. split; [exact H2|]. split; [exact H3|].
  split; [exact H4|].
  destruct (captured_field_above_original_field ci data H1 H2 H3 H4)
    as (hdr & rh & E1 & _ & E2 & E3 & E4).
  exists hdr, rh. rewrite E3 in E4. rewrite E3.
  repeat split; assumption.
Defined.
